(** * Signal-frame generators and conversion simulators

    A shallow embedding of the protocol logic of the embedded-systems
    visualiser (UART, I2C, I2C arbitration, SPI frame generators from
    [src/utils/protocolLogic.ts]; the R-2R DAC and the SAR / dual-slope ADC
    computations from [src/components/DACVisualizer.tsx] and
    [src/components/ADCVisualizer.tsx]), with the properties the
    specification states about them.

    Conventions.
    - A JavaScript number that holds an integer (character codes, addresses,
      data bytes, digital codes, resolutions, logic levels, frame ids) is a
      [Z].  The bit operators [>>] and [&] go through [ToInt32] and the
      five-bit shift count, written out in module [JS].
    - A JavaScript number that holds a voltage or a time is an IEEE 754
      double.  Modules [Double] and [ADC64] are the ADC computations on
      doubles (the kernel's primitive [float]); every statement about the
      values the ADC computes is made there.  Modules [DAC] and [ADC] are
      the same computations in exact rational arithmetic [Q]; they carry
      the statements about what runs and what is thrown, and the DAC's
      switch states and ideal output.
    - A JavaScript string is the list of its UTF-16 code units.
    - [frames.push] and [idCounter++] are explicit state passing. *)

From Stdlib Require Import ZArith List Bool String Lia.
From Stdlib Require Import QArith Qround Qpower Qfield Lqa Sorted DecimalString.
From Stdlib Require Import Floats.
From Stdlib Require Uint63.
Import ListNotations.

Local Open Scope Z_scope.

(* ------------------------------------------------------------------ *)
(** ** JavaScript integer operators *)

Module JS.

(** [ToInt32]: wrap to the signed 32-bit range. *)
Definition toInt32 (x : Z) : Z := (x + 2 ^ 31) mod 2 ^ 32 - 2 ^ 31.

(** [x >> n]: signed shift of [ToInt32 x] by the low five bits of [n]. *)
Definition shr (x n : Z) : Z := Z.shiftr (toInt32 x) (Z.land n 31).

(** [x << n]: the shifted value wrapped back to 32 bits. *)
Definition shl (x n : Z) : Z := toInt32 (Z.shiftl (toInt32 x) (Z.land n 31)).

(** [x & y]. *)
Definition band (x y : Z) : Z := Z.land (toInt32 x) (toInt32 y).

(** [(x >> i) & 1], the idiom every generator uses to read bit [i]. *)
Definition bit (x i : Z) : Z := band (shr x i) 1.

(** Template-literal rendering of an integer, [`${i}`]. *)
Definition show (i : Z) : string := NilZero.string_of_int (Z.to_int i).

(** A JavaScript string, as its UTF-16 code units. *)
Definition str := list Z.

(** [a[i]]: [None] is [undefined] (index negative or past the end). *)
Definition index {A : Type} (a : list A) (i : Z) : option A :=
  if i <? 0 then None else nth_error a (Z.to_nat i).

(** How an evaluation ends: with a value, or with a thrown error. *)
Inductive error := TypeError | RangeError.

Inductive completion (A : Type) :=
| Normal (a : A)
| Throw (e : error).
Arguments Normal {A} a.
Arguments Throw {A} e.

(** [Math.round]: the nearest integer, a tie going up. *)
Definition round (x : Q) : Z := Qfloor (x + (1 # 2)).

End JS.

(** Loop index lists: [upto n] is [0, 1, ..., n-1] (a [for] loop counting
    up), [downfrom n] is [n-1, ..., 1, 0] (a [for] loop counting down to 0). *)
Fixpoint downfrom (n : nat) : list Z :=
  match n with
  | O => []
  | S k => Z.of_nat k :: downfrom k
  end.

Definition upto (n : nat) : list Z := rev (downfrom n).

(** Reading a bit sequence back as a number. *)
Definition from_msb (bits : list Z) : Z :=
  fold_left (fun acc b => 2 * acc + b) bits 0.

Definition from_lsb (bits : list Z) : Z :=
  fold_right (fun b acc => b + 2 * acc) 0 bits.

(* ------------------------------------------------------------------ *)
(** ** UART *)

Module UART.

Inductive FrameType :=
| start | stop | data | parity | idle | ack | nack | address | rw.

Record SignalFrame := mkFrame {
  id : Z;
  label : string;
  level : Z;
  type : FrameType;
  duration : Q
}.

(** The generator's local state: the [frames] array and [idCounter]. *)
Record Gen := mkGen { frames : list SignalFrame; idCounter : Z }.

(** [frames.push({ id: idCounter++, ... })]. *)
Definition push (g : Gen) (lbl : string) (lv : Z) (ty : FrameType) (d : Q) : Gen :=
  {| frames := frames g ++ [mkFrame (idCounter g) lbl lv ty d];
     idCounter := idCounter g + 1 |}.

Definition dataBit (ascii : Z) (g : Gen) (i : Z) : Gen :=
  let bit := JS.bit ascii i in
  push g ("D" ++ JS.show i) bit data 1%Q.

Definition generateUARTSequence (char : JS.str) : list SignalFrame :=
  match char with
  | [] => []
  | ascii :: _ =>
      let g := mkGen [] 0 in
      let g := push g "Idle" 1 idle 1%Q in
      let g := push g "Start" 0 start 1%Q in
      let g := fold_left (dataBit ascii) (upto 8) g in
      let g := push g "Stop" 1 stop 1%Q in
      let g := push g "Idle" 1 idle 1%Q in
      frames g
  end.

End UART.

(* ------------------------------------------------------------------ *)
(** ** I2C: single-master write transaction and two-master arbitration *)

Module I2C.

Inductive FrameType :=
| start | stop | data | ack | nack | idle | address.

Inductive MasterState := active | lost | idling.
(* [idling] is the source's third tag ['idle'], which no generator
   produces; the name [idle] is taken by the frame type. *)

Record I2CSignalFrame := mkFrame {
  id : Z;
  label : string;
  sda : Z;
  scl : Z;
  type : FrameType;
  duration : Q;
  (* optional fields, present only in arbitration traces *)
  sdaA : option Z;
  sdaB : option Z;
  masterAState : option MasterState;
  masterBState : option MasterState
}.

(** *** Standard generator *)

Record Gen := mkGen { frames : list I2CSignalFrame; idCounter : Z }.

Definition push (g : Gen) (lbl : string) (d c : Z) (ty : FrameType) (dur : Q) : Gen :=
  {| frames := frames g ++ [mkFrame (idCounter g) lbl d c ty dur None None None None];
     idCounter := idCounter g + 1 |}.

(** Set data, clock pulse high, clock low again. *)
Definition pulse (g : Gen) (lbl : string) (d : Z) (ty : FrameType) : Gen :=
  let g := push g lbl d 0 ty (1 # 2) in
  let g := push g lbl d 1 ty (1 # 2) in
  push g lbl d 0 ty (1 # 2).

Definition addressBit (addr : Z) (g : Gen) (i : Z) : Gen :=
  let bit := JS.bit addr i in
  pulse g ("A" ++ JS.show i) bit address.

Definition dataBit (dat : Z) (g : Gen) (i : Z) : Gen :=
  let bit := JS.bit dat i in
  pulse g ("D" ++ JS.show i) bit data.

Definition generateI2CSequence (addr dat : Z) : list I2CSignalFrame :=
  let g := mkGen [] 0 in
  let g := push g "Idle" 1 1 idle 1 in
  let g := push g "Start" 0 1 start 1 in
  let g := push g "" 0 0 start (1 # 2) in
  let g := fold_left (addressBit addr) (downfrom 7) g in
  let g := pulse g "W" 0 address in
  let g := pulse g "ACK" 0 ack in
  let g := fold_left (dataBit dat) (downfrom 8) g in
  let g := pulse g "ACK" 0 ack in
  let g := push g "Stop" 0 0 stop (1 # 2) in
  let g := push g "Stop" 0 1 stop (1 # 2) in
  let g := push g "Stop" 1 1 stop 1 in
  frames g.

(** *** Arbitration generator *)

(** The closure state of [generateArbitrationSequence]: the frame array,
    the id counter and the two loss flags that [addFrame] reads. *)
Record Arb := mkArb {
  aframes : list I2CSignalFrame;
  aid : Z;
  masterALost : bool;
  masterBLost : bool
}.

Definition stateOf (isLost : bool) : MasterState :=
  if isLost then lost else active.

Definition addFrame (st : Arb) (lbl : string) (dA dB c : Z)
    (ty : FrameType) (dur : Q) : Arb :=
  let effectiveA := if masterALost st then 1 else dA in
  let effectiveB := if masterBLost st then 1 else dB in
  let busSda := if (effectiveA =? 0) || (effectiveB =? 0) then 0 else 1 in
  {| aframes := aframes st ++
       [mkFrame (aid st) lbl busSda c ty dur
          (Some effectiveA) (Some effectiveB)
          (Some (stateOf (masterALost st))) (Some (stateOf (masterBLost st)))];
     aid := aid st + 1;
     masterALost := masterALost st;
     masterBLost := masterBLost st |}.

(** The loss check at the head of the address loop body. *)
Definition checkLoss (valA valB : Z) (st : Arb) : Arb :=
  if negb (masterALost st) && negb (masterBLost st) then
    if (valA =? 1) && (valB =? 0) then
      mkArb (aframes st) (aid st) true (masterBLost st)
    else if (valA =? 0) && (valB =? 1) then
      mkArb (aframes st) (aid st) (masterALost st) true
    else st
  else st.

(** The three frames of one address bit, with the flags as they stand. *)
Definition emitBit (st : Arb) (lbl : string) (valA valB : Z) : Arb :=
  let st := addFrame st lbl valA valB 0 address (1 # 2) in
  let st := addFrame st lbl valA valB 1 address (1 # 2) in
  addFrame st lbl valA valB 0 address (1 # 2).

Definition arbBit (addrA addrB : Z) (st : Arb) (i : Z) : Arb :=
  let valA := JS.bit addrA i in
  let valB := JS.bit addrB i in
  let st := checkLoss valA valB st in
  emitBit st ("A" ++ JS.show i) valA valB.

(** The acknowledge frames are pushed directly, not through [addFrame]. *)
Definition pushAck (st : Arb) (c : Z) : Arb :=
  {| aframes := aframes st ++
       [mkFrame (aid st) "ACK" 0 c ack (1 # 2) (Some 1) (Some 1)
          (Some (stateOf (masterALost st))) (Some (stateOf (masterBLost st)))];
     aid := aid st + 1;
     masterALost := masterALost st;
     masterBLost := masterBLost st |}.

Definition arbStart : Arb :=
  let st := mkArb [] 0 false false in
  let st := addFrame st "Idle" 1 1 1 idle 1 in
  let st := addFrame st "Start" 0 0 1 start 1 in
  addFrame st "" 0 0 0 start (1 # 2).

Definition arbFinish (st : Arb) : list I2CSignalFrame :=
  let st := emitBit st "W" 0 0 in
  let st := pushAck st 0 in
  let st := pushAck st 1 in
  let st := pushAck st 0 in
  let st := addFrame st "Stop" 0 0 0 stop (1 # 2) in
  let st := addFrame st "Stop" 0 0 1 stop (1 # 2) in
  let st := addFrame st "Stop" 1 1 1 stop 1 in
  aframes st.

Definition generateArbitrationSequence (addrA addrB : Z) : list I2CSignalFrame :=
  arbFinish (fold_left (arbBit addrA addrB) (downfrom 7) arbStart).

End I2C.

(* ------------------------------------------------------------------ *)
(** ** SPI *)

Module SPI.

Inductive FrameType := idle | data | setup | sample.

Record SPISignalFrame := mkFrame {
  id : Z;
  label : string;
  cs : Z;
  sck : Z;
  mosi : Z;
  miso : Z;
  type : FrameType;
  duration : Q
}.

Record Gen := mkGen { frames : list SPISignalFrame; idCounter : Z }.

Definition addFrame (g : Gen) (lbl : string) (c k mo mi : Z)
    (ty : FrameType) (dur : Q) : Gen :=
  {| frames := frames g ++ [mkFrame (idCounter g) lbl c k mo mi ty dur];
     idCounter := idCounter g + 1 |}.

(** [(mode & 2) ? 1 : 0] and [(mode & 1) ? 1 : 0]. *)
Definition cpolOf (mode : Z) : Z := if JS.band mode 2 =? 0 then 0 else 1.
Definition cphaOf (mode : Z) : Z := if JS.band mode 1 =? 0 then 0 else 1.

Definition transferBit (dataTx dataRx cpha idleSCK activeSCK : Z)
    (g : Gen) (i : Z) : Gen :=
  let valTx := JS.bit dataTx i in
  let valRx := JS.bit dataRx i in
  if cpha =? 0 then
    let g := addFrame g ("D" ++ JS.show i) 0 idleSCK valTx valRx data (1 # 2) in
    addFrame g ("D" ++ JS.show i) 0 activeSCK valTx valRx data (1 # 2)
  else
    let g := addFrame g ("D" ++ JS.show i) 0 activeSCK valTx valRx data (1 # 2) in
    addFrame g ("D" ++ JS.show i) 0 idleSCK valTx valRx data (1 # 2).

Definition generateSPISequence (dataTx dataRx mode : Z) : list SPISignalFrame :=
  let cpol := cpolOf mode in
  let cpha := cphaOf mode in
  let idleSCK := cpol in
  let activeSCK := 1 - cpol in
  let g := mkGen [] 0 in
  let g := addFrame g "Idle" 1 idleSCK 1 1 idle 1 in
  let g := addFrame g "CS Low" 0 idleSCK 1 1 setup (1 # 2) in
  let g := fold_left (transferBit dataTx dataRx cpha idleSCK activeSCK) (downfrom 8) g in
  let g := if cpha =? 0 then addFrame g "" 0 idleSCK 1 1 idle (1 # 2) else g in
  let g := addFrame g "CS High" 1 idleSCK 1 1 idle 1 in
  frames g.

End SPI.

(* ------------------------------------------------------------------ *)
(** ** R-2R ladder DAC *)

Module DAC.

(** What the component computes before it renders. *)
Record Ladder := mkLadder {
  maxVal : Q;
  stepSize : Q;
  outputVoltage : Q;
  bits : list Z
}.

(** [for (let i = resolution - 1; i >= 0; i--) b.push((value >> i) & 1)]. *)
Definition extractBits (resolution value : Z) : list Z :=
  fold_left (fun b i => b ++ [JS.bit value i]) (downfrom (Z.to_nat resolution)) [].

Definition ladder (resolution : Z) (vRef : Q) (value : Z) : Ladder :=
  let maxVal := (2 ^ resolution - 1)%Q in
  let stepSize := (vRef / 2 ^ resolution)%Q in
  let outputVoltage := (inject_Z value * stepSize)%Q in
  mkLadder maxVal stepSize outputVoltage (extractBits resolution value).

(** The component body has no [throw] and no guard of its own.  The
    one step of it that can throw is [Array.from({ length: maxVal + 1 })]
    in the rendering of the transfer curve: an array length of 2^32 or
    more is a [RangeError] (a length below 1 is taken as 0). *)
Definition DACVisualizer (resolution : Z) (vRef : Q) (value : Z)
  : JS.completion Ladder :=
  let l := ladder resolution vRef value in
  if Qle_bool (2 ^ 32) (maxVal l + 1) then JS.Throw JS.RangeError
  else JS.Normal l.

End DAC.

(* ------------------------------------------------------------------ *)
(** ** ADC: successive approximation and dual slope *)

Module ADC.

Inductive Mode := sar | dual_slope.

Record SarStep := mkStep {
  bitIndex : Z;
  bitWeight : Q;
  trialVoltage : Q;
  decision : Z;
  currentApproximation : Q
}.

(** Loop state of the SAR [useMemo] body. *)
Record SarLoop := mkLoop { steps : list SarStep; currentDacVal : Q }.

Definition sarBody (resolution : Z) (vRef inputVoltage : Q)
    (st : SarLoop) (i : Z) : SarLoop :=
  let bitWeight := (vRef / 2 ^ (i + 1))%Q in
  let trialVal := (currentDacVal st + bitWeight)%Q in
  let kept := Qle_bool trialVal inputVoltage in
  let cur := if kept then trialVal else currentDacVal st in
  {| steps := steps st ++
       [mkStep (resolution - 1 - i) bitWeight trialVal (if kept then 1 else 0) cur];
     currentDacVal := cur |}.

Definition sarLoop (resolution : Z) (vRef inputVoltage : Q) : SarLoop :=
  fold_left (sarBody resolution vRef inputVoltage)
            (upto (Z.to_nat resolution)) (mkLoop [] 0%Q).

Definition sarSteps (resolution : Z) (vRef inputVoltage : Q) : list SarStep :=
  steps (sarLoop resolution vRef inputVoltage).

Definition t1 : Q := 100%Q.

(** [vRef] is a divisor here: the rational quotient agrees with the
    source for [vRef] other than 0, which is what the statements assume. *)
Definition t2 (vRef inputVoltage : Q) : Q := ((inputVoltage / vRef) * t1)%Q.

Definition dualSlopeMaxCount (resolution : Z) : Q := (2 ^ resolution - 1)%Q.

Definition dualSlopeCount (resolution : Z) (vRef inputVoltage : Q) : Z :=
  JS.round ((t2 vRef inputVoltage / t1) * dualSlopeMaxCount resolution)%Q.

(** [sarSteps[sarSteps.length - 1].currentApproximation]: reading a
    property of [undefined] throws. *)
Definition lastApproximation (ss : list SarStep) : JS.completion Q :=
  match JS.index ss (Z.of_nat (List.length ss) - 1) with
  | Some s => JS.Normal (currentApproximation s)
  | None => JS.Throw JS.TypeError
  end.

(** [(dualSlopeCount / dualSlopeMaxCount) * vRef]; [None] is [NaN], the
    value of 0/0 (the count is 0 whenever the maximum count is). *)
Definition dualSlopeEstimate (resolution : Z) (vRef inputVoltage : Q) : option Q :=
  if Qeq_bool (dualSlopeMaxCount resolution) 0 then None
  else Some ((inject_Z (dualSlopeCount resolution vRef inputVoltage)
              / dualSlopeMaxCount resolution) * vRef)%Q.

Record Reading := mkReading {
  finalDigitalValue : Z;
  finalVoltage : option Q
}.

(** [sarSteps.reduce((acc, step) => acc + (step.decision << step.bitIndex), 0)]. *)
Definition sarCode (ss : list SarStep) : Z :=
  fold_left (fun acc s => acc + JS.shl (decision s) (bitIndex s)) ss 0.

(** The values derived in the component body, by mode. *)
Definition ADCVisualizer (mode : Mode) (resolution : Z) (vRef inputVoltage : Q)
  : JS.completion Reading :=
  match mode with
  | sar =>
      let ss := sarSteps resolution vRef inputVoltage in
      match lastApproximation ss with
      | JS.Normal v => JS.Normal (mkReading (sarCode ss) (Some v))
      | JS.Throw e => JS.Throw e
      end
  | dual_slope =>
      JS.Normal (mkReading (dualSlopeCount resolution vRef inputVoltage)
                           (dualSlopeEstimate resolution vRef inputVoltage))
  end.

End ADC.

(* ------------------------------------------------------------------ *)
(** ** Reading traces back

    The definitions below are not part of the program: they are the
    receiver's side of each protocol, used to state the round-trip
    properties. *)

Module Read.

(** *** UART: the twelve frames of one character, written out. *)

Definition uartFrames (c : Z) : list UART.SignalFrame :=
  [ UART.mkFrame 0 "Idle" 1 UART.idle 1;
    UART.mkFrame 1 "Start" 0 UART.start 1;
    UART.mkFrame 2 "D0" (JS.bit c 0) UART.data 1;
    UART.mkFrame 3 "D1" (JS.bit c 1) UART.data 1;
    UART.mkFrame 4 "D2" (JS.bit c 2) UART.data 1;
    UART.mkFrame 5 "D3" (JS.bit c 3) UART.data 1;
    UART.mkFrame 6 "D4" (JS.bit c 4) UART.data 1;
    UART.mkFrame 7 "D5" (JS.bit c 5) UART.data 1;
    UART.mkFrame 8 "D6" (JS.bit c 6) UART.data 1;
    UART.mkFrame 9 "D7" (JS.bit c 7) UART.data 1;
    UART.mkFrame 10 "Stop" 1 UART.stop 1;
    UART.mkFrame 11 "Idle" 1 UART.idle 1 ].

(** The data bits of a UART trace: frames 2 to 9. *)
Definition uartDataBits (tr : list UART.SignalFrame) : list Z :=
  map UART.level (firstn 8 (skipn 2 tr)).

(** *** I2C: SDA is sampled on every rising edge of SCL. *)

Fixpoint risingEdges (prevScl : Z) (tr : list I2C.I2CSignalFrame)
  : list I2C.I2CSignalFrame :=
  match tr with
  | [] => []
  | f :: rest =>
      let here := if (prevScl =? 0) && (I2C.scl f =? 1) then [f] else [] in
      here ++ risingEdges (I2C.scl f) rest
  end.

Definition isAddress (f : I2C.I2CSignalFrame) : bool :=
  match I2C.type f with I2C.address => true | _ => false end.

Definition isData (f : I2C.I2CSignalFrame) : bool :=
  match I2C.type f with I2C.data => true | _ => false end.

Definition isAck (f : I2C.I2CSignalFrame) : bool :=
  match I2C.type f with I2C.ack => true | _ => false end.

(** The bits clocked in during the address phase (seven address bits and
    the read/write bit) and during the data phase. *)
Definition addressPhase (tr : list I2C.I2CSignalFrame) : list Z :=
  map I2C.sda (filter isAddress (risingEdges 1 tr)).

Definition dataPhase (tr : list I2C.I2CSignalFrame) : list Z :=
  map I2C.sda (filter isData (risingEdges 1 tr)).

(** What one frame shows on the two wires. *)
Definition wires (f : I2C.I2CSignalFrame) : string * Z * Z * I2C.FrameType * Q :=
  (I2C.label f, I2C.sda f, I2C.scl f, I2C.type f, I2C.duration f).

(** Three half-unit frames for one bit: data set while the clock is low,
    clock raised, clock lowered, SDA the same in all three. *)
Definition bitCell (lbl : string) (d : Z) (ty : I2C.FrameType)
  : list (string * Z * Z * I2C.FrameType * Q) :=
  [(lbl, d, 0, ty, 1 # 2); (lbl, d, 1, ty, 1 # 2); (lbl, d, 0, ty, 1 # 2)].

(** *** I2C arbitration: the frames of one address bit, by position. *)

Definition bitFrames (tr : list I2C.I2CSignalFrame) (j : Z) : list I2C.I2CSignalFrame :=
  firstn 3 (skipn (Z.to_nat (3 + 3 * (6 - j))) tr).

Definition writeFrames (tr : list I2C.I2CSignalFrame) : list I2C.I2CSignalFrame :=
  firstn 3 (skipn 24 tr).

Inductive Master := MasterA | MasterB.

Definition other (m : Master) : Master :=
  match m with MasterA => MasterB | MasterB => MasterA end.

Definition drive (m : Master) (f : I2C.I2CSignalFrame) : option Z :=
  match m with MasterA => I2C.sdaA f | MasterB => I2C.sdaB f end.

Definition stateTag (m : Master) (f : I2C.I2CSignalFrame) : option I2C.MasterState :=
  match m with MasterA => I2C.masterAState f | MasterB => I2C.masterBState f end.

(** The level master [m] proposes for address bit [j]. *)
Definition proposed (addrA addrB : Z) (m : Master) (j : Z) : Z :=
  match m with MasterA => JS.bit addrA j | MasterB => JS.bit addrB j end.

Definition drives (f : I2C.I2CSignalFrame) : option Z * option Z :=
  (I2C.sdaA f, I2C.sdaB f).

Definition stateTags (f : I2C.I2CSignalFrame)
  : option I2C.MasterState * option I2C.MasterState :=
  (I2C.masterAState f, I2C.masterBState f).

(** The address bits above bit [k], most significant first. *)
Definition above (k : Z) : list Z := firstn (Z.to_nat (6 - k)) (downfrom 7).

(** Dominant-low wired-AND of the two recorded drive levels. *)
Definition wiredAnd (f : I2C.I2CSignalFrame) : Prop :=
  exists a b, I2C.sdaA f = Some a /\ I2C.sdaB f = Some b /\ I2C.sda f = Z.land a b.

(** A master shown as lost is shown released, and still lost. *)
Definition releasedAs (m : Master) (f : I2C.I2CSignalFrame) : Prop :=
  drive m f = Some 1 /\ stateTag m f = Some I2C.lost.

(** The release of the loser deferred by one bit: in the frames of the
    loss bit [k] the loser is not yet shown released, and in those of the
    following bit it is. *)
Definition releaseDeferred (tr : list I2C.I2CSignalFrame) (k : Z) (loser : Master)
  : Prop :=
  Forall (fun f => ~ releasedAs loser f) (bitFrames tr k)
  /\ Forall (releasedAs loser) (bitFrames tr (k - 1)).

(** Once a frame shows a master as lost, every later frame shows it
    released. *)
Fixpoint lostForGood (tr : list I2C.I2CSignalFrame) : Prop :=
  match tr with
  | [] => True
  | f :: rest =>
      (forall m, stateTag m f = Some I2C.lost -> Forall (releasedAs m) (f :: rest))
      /\ lostForGood rest
  end.

(** The bus rule, frame by frame: outside the acknowledge frames the bus
    level is the wired-AND of the two recorded drive levels; in an
    acknowledge frame both masters are recorded released and the bus is
    low all the same (the addressed device drives it). *)
Definition busRule (f : I2C.I2CSignalFrame) : Prop :=
  exists a b,
    I2C.sdaA f = Some a /\ I2C.sdaB f = Some b /\
    (if isAck f then I2C.sda f = 0 /\ a = 1 /\ b = 1
     else I2C.sda f = Z.land a b).

(** The loss flag of a master in the generator's state. *)
Definition flagOf (m : Master) (st : I2C.Arb) : bool :=
  match m with MasterA => I2C.masterALost st | MasterB => I2C.masterBLost st end.

(** The address loop body with the loss check left out: what the loop
    does on a bit where the check changes nothing. *)
Definition emitAddressBit (addrA addrB : Z) (st : I2C.Arb) (i : Z) : I2C.Arb :=
  I2C.emitBit st ("A" ++ JS.show i) (JS.bit addrA i) (JS.bit addrB i).

(** Setting one master's loss flag. *)
Definition concede (m : Master) (st : I2C.Arb) : I2C.Arb :=
  match m with
  | MasterA => I2C.mkArb (I2C.aframes st) (I2C.aid st) true (I2C.masterBLost st)
  | MasterB => I2C.mkArb (I2C.aframes st) (I2C.aid st) (I2C.masterALost st) true
  end.

(** *** SPI: both data lines are sampled on the mode's sample edge.

    With CPHA = 0 the sample edge is the leading one (the clock leaves
    its idle level), with CPHA = 1 the trailing one (the clock returns to
    it); either way an edge counts only while chip-select is low.  The
    receiver below knows the mode number only, not how the generator
    decodes it. *)

(** The receiver's own reading of the mode number, by the standard
    table: modes 0 and 1 idle low, modes 2 and 3 idle high; modes 0 and 3
    sample on the rising edge, modes 1 and 2 on the falling edge. *)
Definition idleLevel (mode : Z) : Z :=
  match mode with
  | 2 | 3 => 1
  | _ => 0
  end.

Definition sampleLevel (mode : Z) : Z :=
  match mode with
  | 1 | 2 => 0
  | _ => 1
  end.

Fixpoint sampleEdges (mode prevSck : Z) (tr : list SPI.SPISignalFrame)
  : list SPI.SPISignalFrame :=
  match tr with
  | [] => []
  | f :: rest =>
      let edge := negb (SPI.sck f =? prevSck) in
      let here :=
        if (SPI.cs f =? 0) && edge && (SPI.sck f =? sampleLevel mode)
        then [f] else [] in
      here ++ sampleEdges mode (SPI.sck f) rest
  end.

Definition sampled (mode : Z) (tr : list SPI.SPISignalFrame) : list SPI.SPISignalFrame :=
  sampleEdges mode (idleLevel mode) tr.

Definition controllerOut (mode : Z) (tr : list SPI.SPISignalFrame) : Z :=
  from_msb (map SPI.mosi (sampled mode tr)).

Definition peripheralOut (mode : Z) (tr : list SPI.SPISignalFrame) : Z :=
  from_msb (map SPI.miso (sampled mode tr)).

(** *** Conversion simulators *)

(** A simulator run that ends by signalling an error. *)
Definition signalsViolation {A : Type} (c : JS.completion A) : Prop :=
  exists e, c = JS.Throw e.

End Read.

(* ------------------------------------------------------------------ *)
(** ** JavaScript numbers as IEEE 754 doubles

    The converters compute on voltages with JavaScript's [+], [-], [*],
    [/] and [>=], which are the binary64 operations of the kernel's
    primitive floats, rounding to nearest, ties to even. *)

Module Double.

(** [Math.pow(2, n)] for an integer [n]: the power of two, [Infinity]
    from [n = 1024] up, 0 from [n = -1075] down. *)
Definition pow2 (n : Z) : float := Z.ldexp 1%float n.

(** An integer of magnitude below 2^63 as a number (exact up to 2^53). *)
Definition ofZ (z : Z) : float :=
  if z <? 0 then PrimFloat.opp (PrimFloat.of_uint63 (Uint63.of_Z (- z)))
  else PrimFloat.of_uint63 (Uint63.of_Z z).

(** [Math.round]: the nearest integer, a tie going up; [NaN], the
    infinities and the zeros are returned as they are, and a result that
    rounds up to zero from below is [-0]. *)
Definition round (x : float) : float :=
  match Prim2SF x with
  | S754_finite s m e =>
      if 0 <=? e then x
      else
        let n := 2 ^ (- e) in
        let num := if s then Z.neg m else Z.pos m in
        let r := (2 * num + n) / (2 * n) in
        if (r =? 0) && s then neg_zero else ofZ r
  | _ => x
  end.

(** The integer a number is, when it is one. *)
Definition toZ (x : float) : option Z :=
  match Prim2SF x with
  | S754_zero _ => Some 0
  | S754_finite s m e =>
      let sign z := if s then - z else z in
      if 0 <=? e then Some (sign (Z.pos m * 2 ^ e))
      else if Z.pos m mod 2 ^ (- e) =? 0 then Some (sign (Z.pos m / 2 ^ (- e)))
      else None
  | _ => None
  end.

End Double.

(** ** The ADC computations on doubles *)

Module ADC64.

Record SarStep := mkStep {
  bitIndex : Z;
  bitWeight : float;
  trialVoltage : float;
  decision : Z;
  currentApproximation : float
}.

Record SarLoop := mkLoop { steps : list SarStep; currentDacVal : float }.

Definition sarBody (resolution : Z) (vRef inputVoltage : float)
    (st : SarLoop) (i : Z) : SarLoop :=
  let bitWeight := (vRef / Double.pow2 (i + 1))%float in
  let trialVal := (currentDacVal st + bitWeight)%float in
  let kept := (trialVal <=? inputVoltage)%float in
  let cur := if kept then trialVal else currentDacVal st in
  {| steps := steps st ++
       [mkStep (resolution - 1 - i) bitWeight trialVal (if kept then 1 else 0) cur];
     currentDacVal := cur |}.

Definition sarLoop (resolution : Z) (vRef inputVoltage : float) : SarLoop :=
  fold_left (sarBody resolution vRef inputVoltage)
            (upto (Z.to_nat resolution)) (mkLoop [] 0%float).

Definition sarSteps (resolution : Z) (vRef inputVoltage : float) : list SarStep :=
  steps (sarLoop resolution vRef inputVoltage).

Definition t1 : float := 100%float.

Definition t2 (vRef inputVoltage : float) : float :=
  ((inputVoltage / vRef) * t1)%float.

Definition dualSlopeMaxCount (resolution : Z) : float :=
  (Double.pow2 resolution - 1)%float.

Definition dualSlopeCount (resolution : Z) (vRef inputVoltage : float) : float :=
  Double.round ((t2 vRef inputVoltage / t1) * dualSlopeMaxCount resolution)%float.

(** [finalVoltage] in SAR mode:
    [sarSteps[sarSteps.length - 1].currentApproximation]. *)
Definition finalVoltage (resolution : Z) (vRef inputVoltage : float)
  : JS.completion float :=
  let ss := sarSteps resolution vRef inputVoltage in
  match JS.index ss (Z.of_nat (List.length ss) - 1) with
  | Some s => JS.Normal (currentApproximation s)
  | None => JS.Throw JS.TypeError
  end.

(** [quantizationError = inputVoltage - finalVoltage], SAR mode. *)
Definition quantizationError (resolution : Z) (vRef inputVoltage : float)
  : JS.completion float :=
  match finalVoltage resolution vRef inputVoltage with
  | JS.Normal f => JS.Normal (inputVoltage - f)%float
  | JS.Throw e => JS.Throw e
  end.

Definition lsbVoltage (resolution : Z) (vRef : float) : float :=
  (vRef / Double.pow2 resolution)%float.

(** The reference the application passes, [dacVRef = 3.3]. *)
Definition dacVRef : float := 0x1.a666666666666p+1%float.

(** The value the slider delivers at position [i]: the string of
    [i / 100] with two decimals, parsed by [parseFloat], which is the
    double nearest to [i / 100]. *)
Definition slider (i : Z) : float := (Double.ofZ i / 100)%float.

End ADC64.

Module Read64.

(** A list of numbers in non-decreasing order. *)
Fixpoint ascending (l : list float) : bool :=
  match l with
  | [] => true
  | x :: rest =>
      match rest with
      | [] => true
      | y :: _ => (x <=? y)%float && ascending rest
      end
  end.

(** What the SAR run at slider position [i] is checked for: the
    approximations ascend, the last one is at most the input, and the
    quantization error is at most one LSB plus 2^-51, and at most one LSB
    below the top of the slider. *)
Definition sarRunOk (N i : Z) : bool :=
  let v := ADC64.slider i in
  let lsb := ADC64.lsbVoltage N ADC64.dacVRef in
  let ss := ADC64.sarSteps N ADC64.dacVRef v in
  match ADC64.finalVoltage N ADC64.dacVRef v with
  | JS.Normal final =>
      ascending (map ADC64.currentApproximation ss)
      && (final <=? v)%float
      && (v - final <=? lsb + Double.pow2 (-51))%float
      && ((330 <=? i) || (v - final <=? lsb)%float)
  | JS.Throw _ => false
  end.

(** Two numbers at most one unit in the last place apart. *)
Definition adjacent (x y : float) : bool :=
  PrimFloat.Leibniz.eqb x y
  || PrimFloat.Leibniz.eqb x (next_up y)
  || PrimFloat.Leibniz.eqb x (next_down y).

(** The dual-slope code at full scale, once the ratio [vRef / vRef] is
    known to be 1: it is the maximum count, and the maximum count is the
    integer [2^N - 1]. *)
Definition fullScaleOk (N : Z) : bool :=
  PrimFloat.Leibniz.eqb
    (Double.round ((((1 * ADC64.t1) / ADC64.t1) * ADC64.dualSlopeMaxCount N))%float)
    (ADC64.dualSlopeMaxCount N)
  && match Double.toZ (ADC64.dualSlopeMaxCount N) with
     | Some z => z =? 2 ^ N - 1
     | None => false
     end.

(** The dual-slope code at input 0, once the ratio [0 / vRef] is known
    to be 0. *)
Definition zeroScaleOk (N : Z) : bool :=
  PrimFloat.Leibniz.eqb
    (Double.round ((((0 * ADC64.t1) / ADC64.t1) * ADC64.dualSlopeMaxCount N))%float)
    0%float.

(** The ratio [t2 / t1] at slider position [i], against [v / vRef]. *)
Definition ratioOk (i : Z) : bool :=
  adjacent (ADC64.t2 ADC64.dacVRef (ADC64.slider i) / ADC64.t1)%float
           (ADC64.slider i / ADC64.dacVRef)%float.

(** The code at slider position [i] is an integer from 0 to [2^N - 1]. *)
Definition codeInRange (N i : Z) : bool :=
  match Double.toZ (ADC64.dualSlopeCount N ADC64.dacVRef (ADC64.slider i)) with
  | Some z => (0 <=? z) && (z <=? 2 ^ N - 1)
  | None => false
  end.

End Read64.

(* ================================================================== *)
(** * Properties *)

(** ** Bits *)

Section Bits.

Lemma toInt32_mod (x : Z) : JS.toInt32 x mod 2 ^ 32 = x mod 2 ^ 32.
Proof.
  unfold JS.toInt32.
  rewrite Zminus_mod_idemp_l.
  f_equal. lia.
Qed.

Lemma toInt32_testbit (x j : Z) :
  0 <= j < 32 -> Z.testbit (JS.toInt32 x) j = Z.testbit x j.
Proof.
  intros Hj.
  rewrite <- (Z.mod_pow2_bits_low (JS.toInt32 x) 32 j) by lia.
  rewrite toInt32_mod.
  apply Z.mod_pow2_bits_low; lia.
Qed.

Lemma shift_count (i : Z) : Z.land i 31 = i mod 32.
Proof. change 31 with (Z.ones 5). rewrite Z.land_ones by lia. reflexivity. Qed.

(** [(x >> i) & 1] is bit [i mod 32] of [x], whatever the size of [x]. *)
Lemma bit_testbit (x i : Z) : JS.bit x i = Z.b2z (Z.testbit x (i mod 32)).
Proof.
  unfold JS.bit, JS.band, JS.shr.
  change (JS.toInt32 1) with (Z.ones 1).
  rewrite Z.land_ones by lia.
  change (2 ^ 1) with 2.
  rewrite <- Z.bit0_mod.
  rewrite toInt32_testbit by lia.
  rewrite Z.shiftr_spec by lia.
  rewrite shift_count. rewrite Z.add_0_l.
  rewrite toInt32_testbit by (apply Z.mod_pos_bound; lia).
  reflexivity.
Qed.

Lemma bit_low (x i : Z) : 0 <= i < 32 -> JS.bit x i = Z.b2z (Z.testbit x i).
Proof. intros Hi. rewrite bit_testbit, Z.mod_small by lia. reflexivity. Qed.

Lemma bit_01 (x i : Z) : JS.bit x i = 0 \/ JS.bit x i = 1.
Proof. rewrite bit_testbit. destruct (Z.testbit _ _); auto. Qed.

Lemma mod_pow2_succ (x n : Z) :
  0 <= n -> x mod 2 ^ (n + 1) = 2 ^ n * Z.b2z (Z.testbit x n) + x mod 2 ^ n.
Proof.
  intros Hn.
  rewrite Z.pow_add_r, Z.pow_1_r by lia.
  rewrite Z.rem_mul_r by lia.
  rewrite Z.testbit_spec' by lia.
  lia.
Qed.

(** Horner evaluation of the bits [n-1 .. 0] of [x], most significant
    first, gives back the low [n] bits of [x]. *)
Lemma msb_bits_from (x : Z) (n : nat) (acc : Z) :
  (n <= 32)%nat ->
  fold_left (fun a b => 2 * a + b) (map (JS.bit x) (downfrom n)) acc
  = acc * 2 ^ Z.of_nat n + x mod 2 ^ Z.of_nat n.
Proof.
  revert acc. induction n as [|n IH]; intros acc Hn.
  - simpl. rewrite Z.mod_1_r. lia.
  - cbn [downfrom map fold_left].
    rewrite IH by lia.
    rewrite bit_low by lia.
    rewrite Nat2Z.inj_succ, <- Z.add_1_r.
    rewrite mod_pow2_succ by lia.
    rewrite Z.pow_add_r, Z.pow_1_r by lia.
    lia.
Qed.

Lemma from_msb_bits (x : Z) (n : nat) :
  (n <= 32)%nat ->
  from_msb (map (JS.bit x) (downfrom n)) = x mod 2 ^ Z.of_nat n.
Proof. intros Hn. unfold from_msb. rewrite msb_bits_from by assumption. lia. Qed.

Lemma from_lsb_rev (l : list Z) : from_lsb (rev l) = from_msb l.
Proof.
  unfold from_lsb, from_msb.
  rewrite fold_left_rev_right.
  generalize 0. induction l as [|b l IH]; intros acc; cbn [fold_left].
  - reflexivity.
  - rewrite IH. f_equal. lia.
Qed.

Lemma from_lsb_bits (x : Z) (n : nat) :
  (n <= 32)%nat ->
  from_lsb (map (JS.bit x) (upto n)) = x mod 2 ^ Z.of_nat n.
Proof.
  intros Hn. unfold upto. rewrite map_rev, from_lsb_rev.
  apply from_msb_bits; assumption.
Qed.

Lemma map_downfrom_ext (f g : Z -> Z) (n : nat) :
  (forall i, 0 <= i < Z.of_nat n -> f i = g i) ->
  map f (downfrom n) = map g (downfrom n).
Proof.
  induction n as [|n IH]; intros Hall; cbn [downfrom map].
  - reflexivity.
  - rewrite Hall by lia. rewrite IH; [reflexivity|].
    intros i Hi. apply Hall. lia.
Qed.

(** Bit [i] of a number does not see what lies at bit [n] and above. *)
Lemma bit_mod_pow2 (x n i : Z) :
  0 <= i < n -> JS.bit (x mod 2 ^ n) i = JS.bit x i.
Proof.
  intros Hi. rewrite !bit_testbit.
  assert (H32 : 0 <= i mod 32 < 32) by (apply Z.mod_pos_bound; lia).
  assert (Hle : i mod 32 <= i) by (apply Z.mod_le; lia).
  rewrite Z.mod_pow2_bits_low by lia. reflexivity.
Qed.

End Bits.

(** ** UART *)

Section UARTProperties.

Lemma uart_unfold (c : Z) (rest : JS.str) :
  UART.generateUARTSequence (c :: rest) = Read.uartFrames c.
Proof. reflexivity. Qed.

Lemma uart_data_bits (c : Z) :
  Read.uartDataBits (Read.uartFrames c) = map (JS.bit c) (upto 8).
Proof. reflexivity. Qed.

(** C9.  For an 8-bit ordinal [c] the UART trace is exactly the twelve
    frames [Read.uartFrames c]: ids 0 to 11, every duration 1 unit, frame 0
    and frame 11 idle and high, frame 1 the low start bit, frames 2..9 the
    data frames carrying bit 0 to bit 7 of [c] in that order, frame 10 the
    high stop bit; read back least significant bit first, frames 2..9 give
    [c]. *)
Theorem uart_trace_of_ordinal (c : Z) :
  0 <= c < 256 ->
  let tr := UART.generateUARTSequence [c] in
  List.length tr = 12%nat
  /\ Forall (fun f => UART.duration f = 1%Q) tr
  /\ map UART.level tr = [1; 0] ++ map (JS.bit c) (upto 8) ++ [1; 1]
  /\ map UART.type tr
     = [UART.idle; UART.start] ++ repeat UART.data 8 ++ [UART.stop; UART.idle]
  /\ (forall i, 0 <= i < 8 ->
        JS.index (Read.uartDataBits tr) i = Some (Z.b2z (Z.testbit c i)))
  /\ from_lsb (Read.uartDataBits tr) = c.
Proof.
  intros Hc tr. subst tr. rewrite uart_unfold.
  split; [reflexivity|].
  split; [repeat constructor|].
  split; [reflexivity|].
  split; [reflexivity|].
  split.
  - intros i Hi. rewrite uart_data_bits.
    assert (E : i = 0 \/ i = 1 \/ i = 2 \/ i = 3 \/ i = 4 \/ i = 5 \/ i = 6 \/ i = 7)
      by lia.
    change (map (JS.bit c) (upto 8))
      with [JS.bit c 0; JS.bit c 1; JS.bit c 2; JS.bit c 3;
            JS.bit c 4; JS.bit c 5; JS.bit c 6; JS.bit c 7].
    rewrite !bit_low by lia.
    destruct E as [-> | [-> | [-> | [-> | [-> | [-> | [-> | ->]]]]]]];
      reflexivity.
  - rewrite uart_data_bits, from_lsb_bits by lia.
    apply Z.mod_small. cbn. lia.
Qed.

Lemma uart_trace_of_ordinal_witness :
  0 <= 75 < 256 /\
  from_lsb (Read.uartDataBits (UART.generateUARTSequence [75])) = 75.
Proof.
  split; [lia|].
  apply (uart_trace_of_ordinal 75). lia.
Defined.

(** C10.  On the empty string the UART generator returns no frame; on a
    non-empty string it returns the twelve-frame trace of the string's
    first code unit, whatever follows it; so only the empty string gives
    fewer than twelve frames. *)
Theorem uart_empty_and_first_char :
  UART.generateUARTSequence [] = []
  /\ (forall (c : Z) (rest : JS.str),
        UART.generateUARTSequence (c :: rest) = UART.generateUARTSequence [c]
        /\ List.length (UART.generateUARTSequence (c :: rest)) = 12%nat)
  /\ (forall s : JS.str,
        (List.length (UART.generateUARTSequence s) < 12)%nat -> s = []).
Proof.
  split; [reflexivity|]. split.
  - intros c rest. rewrite !uart_unfold. split; reflexivity.
  - intros [|c rest] H; [reflexivity|].
    rewrite uart_unfold in H. cbn in H. lia.
Qed.

End UARTProperties.

(** ** I2C, single master *)

Section I2CProperties.

Lemma i2c_address_phase (a d : Z) :
  Read.addressPhase (I2C.generateI2CSequence a d)
  = map (JS.bit a) (downfrom 7) ++ [0].
Proof. reflexivity. Qed.

Lemma i2c_data_phase (a d : Z) :
  Read.dataPhase (I2C.generateI2CSequence a d) = map (JS.bit d) (downfrom 8).
Proof. reflexivity. Qed.

(** C5.  For a 7-bit address [a] and an 8-bit byte [d] the standard I2C
    trace shows, on its wires: idle, start, settle; one cell of three
    half-unit frames (data set with the clock low, clock raised, clock
    lowered, SDA unchanged) for each address bit from bit 6 down to bit 0;
    the write cell; an acknowledge cell with SDA low; one cell for each
    data bit from bit 7 down to bit 0; a second acknowledge cell with SDA
    low; the stop frames.  The bits clocked in on the rising clock edges
    of the address phase are the seven address bits and the write bit 0,
    and read most significant bit first they give [a]; those of the data
    phase give [d]; all six acknowledge frames have SDA low. *)
Theorem i2c_standard_roundtrip (a d : Z) :
  0 <= a < 128 ->
  0 <= d < 256 ->
  let tr := I2C.generateI2CSequence a d in
  map Read.wires tr
  = [ ("Idle"%string, 1, 1, I2C.idle, 1%Q);
      ("Start"%string, 0, 1, I2C.start, 1%Q);
      (""%string, 0, 0, I2C.start, 1 # 2) ]
    ++ flat_map (fun i => Read.bitCell ("A" ++ JS.show i) (JS.bit a i) I2C.address)
                (downfrom 7)
    ++ Read.bitCell "W" 0 I2C.address
    ++ Read.bitCell "ACK" 0 I2C.ack
    ++ flat_map (fun i => Read.bitCell ("D" ++ JS.show i) (JS.bit d i) I2C.data)
                (downfrom 8)
    ++ Read.bitCell "ACK" 0 I2C.ack
    ++ [ ("Stop"%string, 0, 0, I2C.stop, 1 # 2);
         ("Stop"%string, 0, 1, I2C.stop, 1 # 2);
         ("Stop"%string, 1, 1, I2C.stop, 1%Q) ]
  /\ Read.addressPhase tr = map (JS.bit a) (downfrom 7) ++ [0]
  /\ from_msb (firstn 7 (Read.addressPhase tr)) = a
  /\ from_msb (Read.dataPhase tr) = d
  /\ map I2C.sda (filter Read.isAck tr) = [0; 0; 0; 0; 0; 0].
Proof.
  intros Ha Hd tr. subst tr.
  split; [reflexivity|].
  split; [apply i2c_address_phase|].
  split; [|split; [|reflexivity]].
  - rewrite i2c_address_phase.
    change (firstn 7 (map (JS.bit a) (downfrom 7) ++ [0]))
      with (map (JS.bit a) (downfrom 7)).
    rewrite from_msb_bits by lia.
    apply Z.mod_small. cbn. lia.
  - rewrite i2c_data_phase, from_msb_bits by lia.
    apply Z.mod_small. cbn. lia.
Qed.

Lemma i2c_standard_roundtrip_witness :
  (0 <= 66 < 128 /\ 0 <= 21 < 256)
  /\ from_msb (firstn 7 (Read.addressPhase (I2C.generateI2CSequence 66 21))) = 66
  /\ from_msb (Read.dataPhase (I2C.generateI2CSequence 66 21)) = 21.
Proof.
  split; [lia|].
  pose proof (i2c_standard_roundtrip 66 21) as H.
  cbv zeta in H.
  destruct H as (_ & _ & Haddr & Hdata & _); [lia | lia |].
  split; assumption.
Defined.

End I2CProperties.

(** ** SPI *)

Section SPIProperties.

Lemma spi_modes (mode : Z) :
  0 <= mode <= 3 -> mode = 0 \/ mode = 1 \/ mode = 2 \/ mode = 3.
Proof. lia. Qed.

(** On the sample edges of its mode the trace shows, in order, bit 7 to
    bit 0 of each byte. *)
Lemma spi_sampled_bits (tx rx mode : Z) :
  0 <= mode <= 3 ->
  let tr := SPI.generateSPISequence tx rx mode in
  map SPI.mosi (Read.sampled mode tr) = map (JS.bit tx) (downfrom 8)
  /\ map SPI.miso (Read.sampled mode tr) = map (JS.bit rx) (downfrom 8).
Proof.
  intros Hm.
  destruct (spi_modes mode Hm) as [-> | [-> | [-> | ->]]];
    split; reflexivity.
Qed.



End SPIProperties.

(** ** I2C arbitration *)

Section ArbitrationInvariant.

(** What the generator state promises about the frames made so far. *)
Let Inv (st : I2C.Arb) : Prop :=
  Forall Read.busRule (I2C.aframes st)
  /\ Read.lostForGood (I2C.aframes st)
  /\ Forall (fun f => forall m, Read.stateTag m f = Some I2C.lost ->
                                Read.flagOf m st = true) (I2C.aframes st).

Lemma lostForGood_snoc (l : list I2C.I2CSignalFrame) (g : I2C.I2CSignalFrame) :
  Read.lostForGood l ->
  Forall (fun f => forall m, Read.stateTag m f = Some I2C.lost -> Read.releasedAs m g) l ->
  (forall m, Read.stateTag m g = Some I2C.lost -> Read.releasedAs m g) ->
  Read.lostForGood (l ++ [g]).
Proof.
  intros Hl Hg Hself. induction l as [|f l IH]; cbn [app Read.lostForGood].
  - split; [|exact I]. intros m Hm. constructor; [auto | constructor].
  - destruct Hl as [Hf Hl]. inversion Hg as [|? ? Hfg Hg']; subst.
    split; [|apply IH; assumption].
    intros m Hm. specialize (Hf m Hm).
    change (f :: l ++ [g]) with ((f :: l) ++ [g]).
    apply Forall_app. split; [assumption|].
    constructor; [auto | constructor].
Qed.

Lemma stateOf_lost (b : bool) : I2C.stateOf b = I2C.lost -> b = true.
Proof. destruct b; [reflexivity | discriminate]. Qed.

(** Appending a frame that records the current flags, and records level 1
    for a master whose flag is set, keeps the invariant, provided the new
    frame obeys the bus rule. *)
Lemma inv_append (st : I2C.Arb) (g : I2C.I2CSignalFrame) (st' : I2C.Arb) :
  Inv st ->
  I2C.aframes st' = I2C.aframes st ++ [g] ->
  I2C.masterALost st' = I2C.masterALost st ->
  I2C.masterBLost st' = I2C.masterBLost st ->
  Read.busRule g ->
  (forall m, Read.stateTag m g = Some (I2C.stateOf (Read.flagOf m st))) ->
  (forall m, Read.flagOf m st = true -> Read.drive m g = Some 1) ->
  Inv st'.
Proof.
  intros (Hbus & Hgood & Hflags) Hfr HA HB Hg Htag Hdrive.
  assert (Hrel : forall m, Read.flagOf m st = true -> Read.releasedAs m g).
  { intros m Hm. split; [auto|]. rewrite Htag, Hm. reflexivity. }
  assert (Hself : forall m, Read.stateTag m g = Some I2C.lost -> Read.flagOf m st = true).
  { intros m Hm. rewrite Htag in Hm. injection Hm as Hm.
    apply stateOf_lost; assumption. }
  unfold Inv. rewrite Hfr. repeat split.
  - apply Forall_app. split; [assumption | constructor; [assumption | constructor]].
  - apply lostForGood_snoc; [assumption | | auto].
    eapply Forall_impl; [|exact Hflags]. cbn beta. auto.
  - apply Forall_app. split.
    + eapply Forall_impl; [|exact Hflags]. cbn beta.
      intros f Hf [|] Hm; cbn [Read.flagOf]; [rewrite HA | rewrite HB];
        apply (Hf _ Hm).
    + constructor; [|constructor].
      intros [|] Hm; cbn [Read.flagOf]; [rewrite HA | rewrite HB];
        apply (Hself _ Hm).
Qed.

Lemma inv_addFrame (st : I2C.Arb) lbl (dA dB c : Z) ty dur :
  Inv st ->
  (dA = 0 \/ dA = 1) -> (dB = 0 \/ dB = 1) -> ty <> I2C.ack ->
  Inv (I2C.addFrame st lbl dA dB c ty dur).
Proof.
  intros HI HdA HdB Hty.
  eapply inv_append; [exact HI | reflexivity | reflexivity | reflexivity | | | ].
  - unfold Read.busRule, Read.isAck. cbn [I2C.sdaA I2C.sdaB I2C.sda I2C.type].
    eexists _, _. split; [reflexivity|]. split; [reflexivity|].
    destruct ty; try congruence;
      destruct (I2C.masterALost st), (I2C.masterBLost st);
      destruct HdA as [-> | ->], HdB as [-> | ->]; reflexivity.
  - intros [|]; reflexivity.
  - intros [|] Hm; cbn [Read.flagOf] in Hm; cbn [Read.drive I2C.sdaA I2C.sdaB];
      rewrite Hm; reflexivity.
Qed.

Lemma inv_pushAck (st : I2C.Arb) (c : Z) : Inv st -> Inv (I2C.pushAck st c).
Proof.
  intros HI.
  eapply inv_append; [exact HI | reflexivity | reflexivity | reflexivity | | | ].
  - exists 1, 1. cbn. auto.
  - intros [|]; reflexivity.
  - intros [|] _; reflexivity.
Qed.

Lemma inv_checkLoss (st : I2C.Arb) (valA valB : Z) :
  Inv st -> Inv (I2C.checkLoss valA valB st).
Proof.
  intros (Hbus & Hgood & Hflags). unfold I2C.checkLoss.
  destruct (negb (I2C.masterALost st) && negb (I2C.masterBLost st));
    [|repeat split; assumption].
  destruct ((valA =? 1) && (valB =? 0));
    [|destruct ((valA =? 0) && (valB =? 1)); [|repeat split; assumption]].
  all: repeat split; cbn [I2C.aframes]; try assumption.
  all: eapply Forall_impl; [|exact Hflags]; cbn beta.
  all: intros f Hf [|] Hm; cbn [Read.flagOf I2C.masterALost I2C.masterBLost];
    try reflexivity.
  - apply (Hf Read.MasterB Hm).
  - apply (Hf Read.MasterA Hm).
Qed.

Lemma inv_emitBit (st : I2C.Arb) lbl (valA valB : Z) :
  Inv st -> (valA = 0 \/ valA = 1) -> (valB = 0 \/ valB = 1) ->
  Inv (I2C.emitBit st lbl valA valB).
Proof.
  intros HI HA HB. unfold I2C.emitBit.
  repeat apply inv_addFrame; auto; discriminate.
Qed.

Lemma inv_arbBit (addrA addrB : Z) (st : I2C.Arb) (i : Z) :
  Inv st -> Inv (I2C.arbBit addrA addrB st i).
Proof.
  intros HI. unfold I2C.arbBit.
  apply inv_emitBit; [apply inv_checkLoss; assumption | apply bit_01 | apply bit_01].
Qed.

Lemma inv_loop (addrA addrB : Z) (l : list Z) (st : I2C.Arb) :
  Inv st -> Inv (fold_left (I2C.arbBit addrA addrB) l st).
Proof.
  revert st. induction l as [|i l IH]; intros st HI; cbn [fold_left].
  - assumption.
  - apply IH, inv_arbBit, HI.
Qed.

Lemma inv_start : Inv I2C.arbStart.
Proof.
  unfold I2C.arbStart.
  repeat apply inv_addFrame; auto; try discriminate.
  repeat split; constructor.
Qed.

(** The finished trace obeys the bus rule in every frame and never shows
    a lost master driving again. *)
Lemma arbitration_trace_invariant (addrA addrB : Z) :
  Forall Read.busRule (I2C.generateArbitrationSequence addrA addrB)
  /\ Read.lostForGood (I2C.generateArbitrationSequence addrA addrB).
Proof.
  unfold I2C.generateArbitrationSequence, I2C.arbFinish.
  enough (H : Inv (I2C.addFrame
                     (I2C.addFrame
                        (I2C.addFrame
                           (I2C.pushAck
                              (I2C.pushAck
                                 (I2C.pushAck
                                    (I2C.emitBit
                                       (fold_left (I2C.arbBit addrA addrB) (downfrom 7)
                                                  I2C.arbStart) "W" 0 0) 0) 1) 0)
                           "Stop" 0 0 0 I2C.stop (1 # 2))
                        "Stop" 0 0 1 I2C.stop (1 # 2))
                     "Stop" 1 1 1 I2C.stop 1)).
  { destruct H as (Hbus & Hgood & _). split; assumption. }
  do 3 (apply inv_addFrame; [| auto | auto | discriminate]).
  do 3 apply inv_pushAck.
  apply inv_emitBit; [| auto | auto].
  apply inv_loop, inv_start.
Qed.

End ArbitrationInvariant.

Section ArbitrationLoop.

Variables addrA addrB : Z.

Lemma checkLoss_frames (valA valB : Z) (st : I2C.Arb) :
  I2C.aframes (I2C.checkLoss valA valB st) = I2C.aframes st.
Proof.
  unfold I2C.checkLoss.
  destruct (negb _ && negb _), ((valA =? 1) && (valB =? 0)),
    ((valA =? 0) && (valB =? 1)); reflexivity.
Qed.

Lemma checkLoss_tie (v : Z) (st : I2C.Arb) : I2C.checkLoss v v st = st.
Proof.
  unfold I2C.checkLoss.
  destruct (negb _ && negb _); [|reflexivity].
  destruct (v =? 1) eqn:E1, (v =? 0) eqn:E0; cbn [andb]; try reflexivity.
  apply Z.eqb_eq in E1, E0. lia.
Qed.

Lemma checkLoss_done (m : Read.Master) (valA valB : Z) (st : I2C.Arb) :
  Read.flagOf m st = true -> I2C.checkLoss valA valB st = st.
Proof.
  unfold I2C.checkLoss. destruct m; cbn [Read.flagOf]; intros ->.
  - reflexivity.
  - rewrite andb_false_r. reflexivity.
Qed.

Lemma checkLoss_concede (m : Read.Master) (k : Z) (st : I2C.Arb) :
  I2C.masterALost st = false ->
  I2C.masterBLost st = false ->
  Read.proposed addrA addrB m k = 1 ->
  Read.proposed addrA addrB (Read.other m) k = 0 ->
  I2C.checkLoss (JS.bit addrA k) (JS.bit addrB k) st = Read.concede m st.
Proof.
  unfold I2C.checkLoss. intros HA HB.
  destruct m; cbn [Read.proposed Read.other Read.concede]; intros -> ->;
    rewrite HA, HB; reflexivity.
Qed.

Lemma emit_flag (m : Read.Master) (st : I2C.Arb) (i : Z) :
  Read.flagOf m (Read.emitAddressBit addrA addrB st i) = Read.flagOf m st.
Proof. destruct m; reflexivity. Qed.

Lemma emit_loop_flag (m : Read.Master) (l : list Z) (st : I2C.Arb) :
  Read.flagOf m (fold_left (Read.emitAddressBit addrA addrB) l st) = Read.flagOf m st.
Proof.
  revert st. induction l as [|i l IH]; intros st; cbn [fold_left].
  - reflexivity.
  - rewrite IH. apply emit_flag.
Qed.

(** While the two addresses agree the check changes nothing. *)
Lemma loop_tie (l : list Z) (st : I2C.Arb) :
  (forall j, In j l -> JS.bit addrA j = JS.bit addrB j) ->
  fold_left (I2C.arbBit addrA addrB) l st
  = fold_left (Read.emitAddressBit addrA addrB) l st.
Proof.
  revert st. induction l as [|i l IH]; intros st Heq; cbn [fold_left].
  - reflexivity.
  - rewrite <- IH by (intros j Hj; apply Heq; right; exact Hj).
    f_equal. unfold I2C.arbBit, Read.emitAddressBit.
    rewrite (Heq i) by (left; reflexivity).
    rewrite checkLoss_tie. reflexivity.
Qed.

(** Once a master has lost the check is skipped. *)
Lemma loop_done (m : Read.Master) (l : list Z) (st : I2C.Arb) :
  Read.flagOf m st = true ->
  fold_left (I2C.arbBit addrA addrB) l st
  = fold_left (Read.emitAddressBit addrA addrB) l st.
Proof.
  revert st. induction l as [|i l IH]; intros st Hm; cbn [fold_left].
  - reflexivity.
  - assert (E : I2C.arbBit addrA addrB st i = Read.emitAddressBit addrA addrB st i).
    { unfold I2C.arbBit, Read.emitAddressBit.
      rewrite (checkLoss_done m) by assumption. reflexivity. }
    rewrite E. apply IH. rewrite emit_flag. assumption.
Qed.

Lemma downfrom_split (k : Z) :
  0 <= k <= 6 -> downfrom 7 = Read.above k ++ k :: downfrom (Z.to_nat k).
Proof.
  intros Hk.
  assert (E : k = 0 \/ k = 1 \/ k = 2 \/ k = 3 \/ k = 4 \/ k = 5 \/ k = 6) by lia.
  destruct E as [-> | [-> | [-> | [-> | [-> | [-> | ->]]]]]]; reflexivity.
Qed.

Lemma in_above (k j : Z) : 0 <= k <= 6 -> In j (Read.above k) -> k < j <= 6.
Proof.
  intros Hk.
  assert (E : k = 0 \/ k = 1 \/ k = 2 \/ k = 3 \/ k = 4 \/ k = 5 \/ k = 6) by lia.
  destruct E as [-> | [-> | [-> | [-> | [-> | [-> | ->]]]]]];
    unfold Read.above; simpl; intros Hj; lia.
Qed.

(** The whole trace when the addresses first differ at bit [k] and [m] is
    the master that proposes 1 there: no check matters but the one at
    bit [k], which sets the flag of [m]. *)
Lemma arbitration_unfold (k : Z) (m : Read.Master) :
  0 <= k <= 6 ->
  (forall j, k < j <= 6 -> JS.bit addrA j = JS.bit addrB j) ->
  Read.proposed addrA addrB m k = 1 ->
  Read.proposed addrA addrB (Read.other m) k = 0 ->
  I2C.generateArbitrationSequence addrA addrB
  = I2C.arbFinish
      (fold_left (Read.emitAddressBit addrA addrB) (downfrom (Z.to_nat k))
         (Read.emitAddressBit addrA addrB
            (Read.concede m
               (fold_left (Read.emitAddressBit addrA addrB) (Read.above k)
                          I2C.arbStart))
            k)).
Proof.
  intros Hk Hhi H1 H0.
  unfold I2C.generateArbitrationSequence.
  rewrite (downfrom_split k Hk), fold_left_app. cbn [fold_left].
  rewrite (loop_tie (Read.above k))
    by (intros j Hj; apply Hhi, in_above; assumption).
  set (st := fold_left (Read.emitAddressBit addrA addrB) (Read.above k) I2C.arbStart).
  assert (HA : I2C.masterALost st = false)
    by apply (emit_loop_flag Read.MasterA).
  assert (HB : I2C.masterBLost st = false)
    by apply (emit_loop_flag Read.MasterB).
  assert (E : I2C.arbBit addrA addrB st k
              = Read.emitAddressBit addrA addrB (Read.concede m st) k).
  { unfold I2C.arbBit, Read.emitAddressBit.
    rewrite (checkLoss_concede m) by assumption. reflexivity. }
  rewrite E.
  rewrite (loop_done m); [reflexivity|].
  rewrite emit_flag. destruct m; reflexivity.
Qed.

(** Two distinct 7-bit addresses have a first bit, counted from bit 6
    down, at which they differ. *)
Lemma first_difference_below (n : nat) :
  (forall j, 0 <= j < Z.of_nat n -> JS.bit addrA j = JS.bit addrB j)
  \/ exists k, 0 <= k < Z.of_nat n
               /\ JS.bit addrA k <> JS.bit addrB k
               /\ forall j, k < j < Z.of_nat n -> JS.bit addrA j = JS.bit addrB j.
Proof.
  induction n as [|n IH].
  - left. intros j Hj. lia.
  - destruct (Z.eq_dec (JS.bit addrA (Z.of_nat n)) (JS.bit addrB (Z.of_nat n)))
      as [Heq | Hne].
    + destruct IH as [Hall | (k & Hk & Hd & Hhi)].
      * left. intros j Hj.
        destruct (Z.eq_dec j (Z.of_nat n)) as [-> | Hjn]; [assumption|].
        apply Hall. lia.
      * right. exists k. split; [lia|]. split; [assumption|].
        intros j Hj.
        destruct (Z.eq_dec j (Z.of_nat n)) as [-> | Hjn]; [assumption|].
        apply Hhi. lia.
    + right. exists (Z.of_nat n). split; [lia|]. split; [assumption|].
      intros j Hj. lia.
Qed.

Lemma bits_determine (n : nat) :
  (forall j, 0 <= j < Z.of_nat n -> JS.bit addrA j = JS.bit addrB j) ->
  map (JS.bit addrA) (downfrom n) = map (JS.bit addrB) (downfrom n).
Proof. apply map_downfrom_ext. Qed.

Lemma first_difference :
  0 <= addrA < 128 -> 0 <= addrB < 128 -> addrA <> addrB ->
  exists k, 0 <= k <= 6
            /\ JS.bit addrA k <> JS.bit addrB k
            /\ forall j, k < j <= 6 -> JS.bit addrA j = JS.bit addrB j.
Proof.
  intros HA HB Hne.
  destruct (first_difference_below 7) as [Hall | (k & Hk & Hd & Hhi)].
  - exfalso. apply Hne.
    pose proof (from_msb_bits addrA 7 ltac:(lia)) as EA.
    pose proof (from_msb_bits addrB 7 ltac:(lia)) as EB.
    rewrite (bits_determine 7 Hall) in EA. rewrite EA in EB.
    change (2 ^ Z.of_nat 7) with 128 in EB.
    rewrite !Z.mod_small in EB by lia. exact EB.
  - exists k. split; [lia|]. split; [assumption|].
    intros j Hj. apply Hhi. lia.
Qed.

Lemma loser_at (k : Z) :
  JS.bit addrA k <> JS.bit addrB k ->
  exists m, Read.proposed addrA addrB m k = 1
            /\ Read.proposed addrA addrB (Read.other m) k = 0.
Proof.
  intros Hne.
  destruct (bit_01 addrA k) as [EA | EA], (bit_01 addrB k) as [EB | EB];
    try (exfalso; apply Hne; congruence).
  - exists Read.MasterB. split; assumption.
  - exists Read.MasterA. split; assumption.
Qed.

End ArbitrationLoop.

Section ArbitrationProperties.

Lemma addFrame_types (st : I2C.Arb) lbl (dA dB c : Z) ty dur :
  map I2C.type (I2C.aframes (I2C.addFrame st lbl dA dB c ty dur))
  = map I2C.type (I2C.aframes st) ++ [ty].
Proof. unfold I2C.addFrame. cbn [I2C.aframes]. rewrite map_app. reflexivity. Qed.

Lemma pushAck_types (st : I2C.Arb) (c : Z) :
  map I2C.type (I2C.aframes (I2C.pushAck st c))
  = map I2C.type (I2C.aframes st) ++ [I2C.ack].
Proof. unfold I2C.pushAck. cbn [I2C.aframes]. rewrite map_app. reflexivity. Qed.

Lemma emitBit_types (st : I2C.Arb) lbl (valA valB : Z) :
  map I2C.type (I2C.aframes (I2C.emitBit st lbl valA valB))
  = map I2C.type (I2C.aframes st) ++ [I2C.address; I2C.address; I2C.address].
Proof.
  unfold I2C.emitBit. rewrite !addFrame_types, <- !app_assoc. reflexivity.
Qed.

Lemma arbBit_types (addrA addrB : Z) (st : I2C.Arb) (i : Z) :
  map I2C.type (I2C.aframes (I2C.arbBit addrA addrB st i))
  = map I2C.type (I2C.aframes st) ++ [I2C.address; I2C.address; I2C.address].
Proof.
  unfold I2C.arbBit. rewrite emitBit_types, checkLoss_frames. reflexivity.
Qed.

Lemma loop_types (addrA addrB : Z) (l : list Z) (st : I2C.Arb) :
  map I2C.type (I2C.aframes (fold_left (I2C.arbBit addrA addrB) l st))
  = map I2C.type (I2C.aframes st)
    ++ flat_map (fun _ => [I2C.address; I2C.address; I2C.address]) l.
Proof.
  revert st. induction l as [|i l IH]; intros st; cbn [fold_left flat_map].
  - rewrite app_nil_r. reflexivity.
  - rewrite IH, arbBit_types, <- app_assoc. reflexivity.
Qed.

Lemma arbitration_types (addrA addrB : Z) :
  map I2C.type (I2C.generateArbitrationSequence addrA addrB)
  = [I2C.idle; I2C.start; I2C.start] ++ repeat I2C.address 24
    ++ [I2C.ack; I2C.ack; I2C.ack; I2C.stop; I2C.stop; I2C.stop].
Proof.
  unfold I2C.generateArbitrationSequence, I2C.arbFinish.
  rewrite !addFrame_types, !pushAck_types, emitBit_types, loop_types.
  reflexivity.
Qed.

(** C2, as the specification states it, fails: in the first acknowledge
    frame of the trace for addresses 0x21 and 0x25 the bus is low although
    both masters are recorded as driving 1. *)
Lemma arbitration_ack_not_wired_and :
  ~ Forall Read.wiredAnd (I2C.generateArbitrationSequence 33 37).
Proof.
  intros H. rewrite Forall_forall in H.
  destruct (H (I2C.mkFrame 27 "ACK" 0 0 I2C.ack (1 # 2) (Some 1) (Some 1)
                 (Some I2C.active) (Some I2C.lost)))
    as (a & b & Ea & Eb & Es).
  - apply (nth_error_In _ 27). reflexivity.
  - cbn in Ea, Eb, Es. injection Ea as <-. injection Eb as <-. discriminate.
Qed.

(** C2, amended.  For any two addresses, every frame of the arbitration
    trace records both masters' drive levels; in every frame that is not
    an acknowledge frame the bus SDA level is the AND of the two recorded
    levels; the three acknowledge frames (frames 27 to 29, the only ones
    of that type among the 33) record both masters at 1 with the bus low;
    and once a frame shows a master as lost, that frame and every later
    one record its drive level as 1 and its state as lost. *)
Theorem arbitration_bus_rule (addrA addrB : Z) :
  let tr := I2C.generateArbitrationSequence addrA addrB in
  Forall Read.busRule tr
  /\ map I2C.type tr
     = [I2C.idle; I2C.start; I2C.start] ++ repeat I2C.address 24
       ++ [I2C.ack; I2C.ack; I2C.ack; I2C.stop; I2C.stop; I2C.stop]
  /\ Read.lostForGood tr.
Proof.
  intros tr. subst tr.
  destruct (arbitration_trace_invariant addrA addrB) as [Hbus Hgood].
  split; [assumption|]. split; [apply arbitration_types | assumption].
Qed.

Ltac each_bit j :=
  let E := fresh "E" in
  assert (E : j = 0 \/ j = 1 \/ j = 2 \/ j = 3 \/ j = 4 \/ j = 5 \/ j = 6) by lia;
  destruct E as [-> | [-> | [-> | [-> | [-> | [-> | ->]]]]]].

(** Reading a property off a trace that has been written out. *)
Ltac read_off Etr H1 H0 :=
  rewrite Etr; cbn [Read.proposed Read.other]; rewrite ?H1, ?H0; reflexivity.



End ArbitrationProperties.


(** ** R-2R ladder DAC *)

Section DACProperties.

Lemma push_loop {A B : Type} (f : A -> B) (l : list A) (acc : list B) :
  fold_left (fun b i => b ++ [f i]) l acc = acc ++ map f l.
Proof.
  revert acc. induction l as [|i l IH]; intros acc; cbn [fold_left map].
  - rewrite app_nil_r. reflexivity.
  - rewrite IH, <- app_assoc. reflexivity.
Qed.

Lemma extractBits_map (resolution value : Z) :
  DAC.extractBits resolution value
  = map (JS.bit value) (downfrom (Z.to_nat resolution)).
Proof. unfold DAC.extractBits. rewrite push_loop. reflexivity. Qed.

Lemma extractBits_masked (resolution value : Z) :
  DAC.extractBits resolution (value mod 2 ^ resolution)
  = DAC.extractBits resolution value.
Proof.
  rewrite !extractBits_map. apply map_downfrom_ext.
  intros i Hi. apply bit_mod_pow2. lia.
Qed.

Lemma pow2_inject (n : Z) : 0 <= n -> (2 ^ n == inject_Z (2 ^ n))%Q.
Proof. intros Hn. rewrite Zpower_Qpower by assumption. reflexivity. Qed.

Lemma pow2_nonzero (n : Z) : ~ (2 ^ n == 0)%Q.
Proof. apply Qpower_not_0. discriminate. Qed.


Lemma array_length_ok (N : Z) (vRef : Q) (D : Z) :
  N < 32 -> DAC.DACVisualizer N vRef D = JS.Normal (DAC.ladder N vRef D).
Proof.
  intros HN. unfold DAC.DACVisualizer.
  cbn [DAC.ladder DAC.maxVal].
  destruct (Qle_bool (2 ^ 32) (2 ^ N - 1 + 1)) eqn:E; [|reflexivity].
  exfalso. apply Qle_bool_iff in E.
  assert (Hle : (2 ^ N <= 2 ^ 31)%Q)
    by (apply Qpower_le_compat_l; [lia | discriminate]).
  assert (Hlt : (2 ^ 31 < 2 ^ 32)%Q) by reflexivity.
  lra.
Qed.

(** From 32 bits up the transfer curve needs an array of 2^32 entries or
    more, and the component throws, whatever the code. *)
Lemma array_length_too_large (N : Z) (vRef : Q) (D : Z) :
  32 <= N -> DAC.DACVisualizer N vRef D = JS.Throw JS.RangeError.
Proof.
  intros HN. unfold DAC.DACVisualizer.
  cbn [DAC.ladder DAC.maxVal].
  destruct (Qle_bool (2 ^ 32) (2 ^ N - 1 + 1)) eqn:E; [reflexivity|].
  exfalso.
  assert (Hle : (2 ^ 32 <= 2 ^ N)%Q)
    by (apply Qpower_le_compat_l; [lia | discriminate]).
  assert (H : (2 ^ 32 <= 2 ^ N - 1 + 1)%Q) by lra.
  apply Qle_bool_iff in H. congruence.
Qed.



End DACProperties.

(** ** The ADC on doubles *)

Section Doubles.

Lemma in_downfrom (n : nat) (i : Z) : In i (downfrom n) <-> 0 <= i < Z.of_nat n.
Proof.
  induction n as [|n IH]; cbn [downfrom In].
  - lia.
  - rewrite IH. lia.
Qed.

Lemma in_upto (n : nat) (i : Z) : In i (upto n) <-> 0 <= i < Z.of_nat n.
Proof. unfold upto. rewrite <- in_rev. apply in_downfrom. Qed.

(** A check that passes on [0 .. n-1] holds at each index. *)
Lemma checked_upto (P : Z -> bool) (n : nat) :
  forallb P (upto n) = true ->
  forall i, 0 <= i < Z.of_nat n -> P i = true.
Proof.
  intros H i Hi. rewrite forallb_forall in H. apply H, in_upto, Hi.
Qed.

Lemma leibniz_eqb (x y : float) : PrimFloat.Leibniz.eqb x y = true -> x = y.
Proof. apply FloatAxioms.Leibniz.eqb_spec. Qed.

(** *** Division of a positive finite number by itself, and of zero by it *)

Lemma positive_finite_shape (x : float) :
  (0 <? x)%float = true -> (x <? infinity)%float = true ->
  exists m e, Prim2SF x = S754_finite false m e.
Proof.
  rewrite !FloatAxioms.ltb_spec.
  change (Prim2SF 0%float) with (S754_zero false).
  change (Prim2SF infinity) with (S754_infinity false).
  destruct (Prim2SF x) as [s | s | | s m e]; cbn; try discriminate.
  - destruct s; discriminate.
  - destruct s; [discriminate|]. intros _ _. exists m, e. reflexivity.
Qed.

Lemma div_eucl_multiple (q m : Z) :
  0 < m -> Z.div_eucl (q * m) m = (q, 0).
Proof.
  intros Hm.
  pose proof (Z_div_mult q m ltac:(lia)) as Hq.
  pose proof (Z_mod_mult q m) as Hr.
  unfold Z.div, Z.modulo in Hq, Hr.
  destruct (Z.div_eucl (q * m) m) as [q' r']. cbn in Hq, Hr. congruence.
Qed.

Lemma new_location_exact (m : Z) : new_location m 0 = loc_Exact.
Proof. unfold new_location. destruct (Z.even m); reflexivity. Qed.

Lemma div_self (x : float) :
  (0 <? x)%float = true -> (x <? infinity)%float = true ->
  (x / x)%float = 1%float.
Proof.
  intros H0 Hinf.
  destruct (positive_finite_shape x H0 Hinf) as (m & e & Hx).
  apply Prim2SF_inj. rewrite div_spec, Hx.
  unfold SF64div, SFdiv, SFdiv_core_binary.
  replace (Zdigits2 (Z.pos m) + e - (Zdigits2 (Z.pos m) + e)) with 0 by lia.
  rewrite Z.sub_diag.
  change (Z.min (fexp prec emax 0) 0) with (-53).
  change (0 - -53) with 53.
  cbv beta iota.
  rewrite Z.shiftl_mul_pow2 by lia.
  rewrite (Z.mul_comm (Z.pos m)), div_eucl_multiple by lia.
  rewrite new_location_exact.
  vm_compute. reflexivity.
Qed.

Lemma zero_div (x : float) :
  (0 <? x)%float = true -> (x <? infinity)%float = true ->
  (0 / x)%float = 0%float.
Proof.
  intros H0 Hinf.
  destruct (positive_finite_shape x H0 Hinf) as (m & e & Hx).
  apply Prim2SF_inj. rewrite div_spec, Hx. reflexivity.
Qed.

(** *** Successive approximation *)

Lemma sar64_loop (resolution : Z) (vRef v : float) (l : list Z) (st : ADC64.SarLoop) :
  (ADC64.currentDacVal st <=? v)%float = true ->
  Forall (fun s => (ADC64.currentApproximation s <=? v)%float = true) (ADC64.steps st) ->
  let st' := fold_left (ADC64.sarBody resolution vRef v) l st in
  (ADC64.currentDacVal st' <=? v)%float = true
  /\ Forall (fun s => (ADC64.currentApproximation s <=? v)%float = true) (ADC64.steps st')
  /\ List.length (ADC64.steps st') = (List.length (ADC64.steps st) + List.length l)%nat.
Proof.
  revert st. induction l as [|i l IH]; intros st Hcur Hall; cbn [fold_left].
  - cbn. repeat split; try assumption. lia.
  - set (st1 := ADC64.sarBody resolution vRef v st i).
    assert (Hcur1 : (ADC64.currentDacVal st1 <=? v)%float = true).
    { unfold st1, ADC64.sarBody. cbn [ADC64.currentDacVal].
      destruct (ADC64.currentDacVal st + vRef / Double.pow2 (i + 1) <=? v)%float eqn:E;
        assumption. }
    assert (Hall1 : Forall (fun s => (ADC64.currentApproximation s <=? v)%float = true)
                           (ADC64.steps st1)).
    { unfold st1, ADC64.sarBody. cbn [ADC64.steps].
      apply Forall_app. split; [assumption|].
      constructor; [|constructor]. cbn [ADC64.currentApproximation].
      destruct (ADC64.currentDacVal st + vRef / Double.pow2 (i + 1) <=? v)%float eqn:E;
        assumption. }
    destruct (IH st1 Hcur1 Hall1) as (H1 & H2 & H3).
    split; [exact H1|]. split; [exact H2|].
    rewrite H3. unfold st1, ADC64.sarBody. cbn [ADC64.steps List.length].
    rewrite length_app. cbn [List.length]. lia.
Qed.

Lemma length_upto (n : nat) : List.length (upto n) = n.
Proof.
  unfold upto. rewrite length_rev.
  induction n as [|n IH]; cbn [downfrom List.length]; congruence.
Qed.

Lemma sar64_never_above (N : Z) (vRef v : float) :
  (0 <=? v)%float = true ->
  List.length (ADC64.sarSteps N vRef v) = Z.to_nat N
  /\ Forall (fun s => (ADC64.currentApproximation s <=? v)%float = true)
            (ADC64.sarSteps N vRef v).
Proof.
  intros Hv. unfold ADC64.sarSteps, ADC64.sarLoop.
  destruct (sar64_loop N vRef v (upto (Z.to_nat N)) (ADC64.mkLoop [] 0%float))
    as (_ & Hall & Hlen); [exact Hv | constructor |].
  split; [|exact Hall].
  rewrite Hlen, length_upto. reflexivity.
Qed.

(** With at least one step the last approximation is read without an
    error, and it is not above the input. *)
Lemma sar64_final (N : Z) (vRef v : float) :
  1 <= N ->
  (0 <=? v)%float = true ->
  exists final : float,
    ADC64.finalVoltage N vRef v = JS.Normal final
    /\ (final <=? v)%float = true.
Proof.
  intros HN Hv.
  destruct (sar64_never_above N vRef v Hv) as [Hlen Hall].
  unfold ADC64.finalVoltage, JS.index.
  rewrite Hlen.
  destruct (Z.ltb_spec (Z.of_nat (Z.to_nat N) - 1) 0) as [Hneg | _]; [lia|].
  destruct (nth_error (ADC64.sarSteps N vRef v) (Z.to_nat (Z.of_nat (Z.to_nat N) - 1)))
    as [s|] eqn:E.
  - exists (ADC64.currentApproximation s). split; [reflexivity|].
    rewrite Forall_forall in Hall. apply Hall. eapply nth_error_In, E.
  - apply nth_error_None in E. lia.
Qed.

(** The runs at the reference 3.3, resolution by resolution and slider
    position by slider position. *)
Lemma sar_runs_checked :
  forallb (fun N => (N <? 1) || forallb (Read64.sarRunOk N) (upto 331)) (upto 17)
  = true.
Proof. vm_compute. reflexivity. Qed.

Lemma sar_run_ok (N i : Z) :
  Read64.sarRunOk N i = true ->
  exists final : float,
    ADC64.finalVoltage N ADC64.dacVRef (ADC64.slider i) = JS.Normal final
    /\ Read64.ascending
         (map ADC64.currentApproximation
              (ADC64.sarSteps N ADC64.dacVRef (ADC64.slider i))) = true
    /\ (final <=? ADC64.slider i)%float = true
    /\ (ADC64.slider i - final
        <=? ADC64.lsbVoltage N ADC64.dacVRef + Double.pow2 (-51))%float = true
    /\ (i < 330 ->
        (ADC64.slider i - final <=? ADC64.lsbVoltage N ADC64.dacVRef)%float = true).
Proof.
  unfold Read64.sarRunOk.
  destruct (ADC64.finalVoltage N ADC64.dacVRef (ADC64.slider i)) as [final | e];
    [|discriminate].
  intros H. apply andb_prop in H. destruct H as [H H4].
  apply andb_prop in H. destruct H as [H H3].
  apply andb_prop in H. destruct H as [H1 H2].
  exists final. repeat split; try assumption.
  intros Hi. apply orb_prop in H4. destruct H4 as [H4 | H4]; [|exact H4].
  apply Z.leb_le in H4. lia.
Qed.




(** *** Dual slope *)

Lemma full_scale_checked : forallb Read64.fullScaleOk (upto 54) = true.
Proof. vm_compute. reflexivity. Qed.

Lemma zero_scale_checked : forallb Read64.zeroScaleOk (upto 54) = true.
Proof. vm_compute. reflexivity. Qed.

Lemma ratio_checked : forallb Read64.ratioOk (upto 331) = true.
Proof. vm_compute. reflexivity. Qed.

Lemma code_range_checked :
  forallb (fun N => forallb (Read64.codeInRange N) (upto 331)) (upto 17) = true.
Proof. vm_compute. reflexivity. Qed.

(** At full scale the code is the maximum count, whatever the reference. *)
Lemma dual_slope_full_scale (N : Z) (vRef : float) :
  0 <= N <= 53 ->
  (0 <? vRef)%float = true -> (vRef <? infinity)%float = true ->
  ADC64.dualSlopeCount N vRef vRef = ADC64.dualSlopeMaxCount N
  /\ Double.toZ (ADC64.dualSlopeMaxCount N) = Some (2 ^ N - 1).
Proof.
  intros HN H0 Hinf.
  pose proof (checked_upto _ 54 full_scale_checked N ltac:(lia)) as H.
  unfold Read64.fullScaleOk in H. apply andb_prop in H. destruct H as [H1 H2].
  split.
  - unfold ADC64.dualSlopeCount, ADC64.t2. rewrite (div_self vRef H0 Hinf).
    apply leibniz_eqb, H1.
  - destruct (Double.toZ (ADC64.dualSlopeMaxCount N)) as [z|]; [|discriminate].
    apply Z.eqb_eq in H2. congruence.
Qed.

(** At input 0 the code is 0, whatever the reference. *)
Lemma dual_slope_zero (N : Z) (vRef : float) :
  0 <= N <= 53 ->
  (0 <? vRef)%float = true -> (vRef <? infinity)%float = true ->
  ADC64.dualSlopeCount N vRef 0 = 0%float.
Proof.
  intros HN H0 Hinf.
  pose proof (checked_upto _ 54 zero_scale_checked N ltac:(lia)) as H.
  unfold ADC64.dualSlopeCount, ADC64.t2. rewrite (zero_div vRef H0 Hinf).
  apply leibniz_eqb, H.
Qed.




End Doubles.

(** ** Rounding of rationals *)

Section Rounding.

Lemma round_inject (z : Z) : JS.round (inject_Z z) = z.
Proof.
  unfold JS.round, Qfloor, Qplus, inject_Z. cbn [Qnum Qden].
  change (Z.pos (1 * 2)) with 2.
  Z.div_mod_to_equations. lia.
Qed.

Lemma round_comp (x y : Q) : (x == y)%Q -> JS.round x = JS.round y.
Proof. intros H. unfold JS.round. apply Qfloor_comp. rewrite H. reflexivity. Qed.

End Rounding.

(** ** Resolutions of zero and below *)

Section NonPositiveResolution.

Lemma no_iterations (N : Z) : N <= 0 -> Z.to_nat N = 0%nat.
Proof. intros HN. destruct N; try reflexivity. lia. Qed.

(** With no step recorded, reading the last step's approximation throws:
    the only error the converters can end with, and it comes from the
    array access, not from a check of the resolution. *)
Lemma sar_mode_without_steps (N : Z) (vRef v : Q) :
  N <= 0 ->
  ADC.ADCVisualizer ADC.sar N vRef v = JS.Throw JS.TypeError.
Proof.
  intros HN. unfold ADC.ADCVisualizer, ADC.sarSteps, ADC.sarLoop.
  rewrite (no_iterations N HN). reflexivity.
Qed.

(** The same on doubles: no step, and the read of the last one throws. *)
Lemma sar_on_doubles_without_steps (N : Z) (vRef v : float) :
  N <= 0 ->
  ADC64.sarSteps N vRef v = []
  /\ ADC64.finalVoltage N vRef v = JS.Throw JS.TypeError.
Proof.
  intros HN. unfold ADC64.finalVoltage, ADC64.sarSteps, ADC64.sarLoop.
  rewrite (no_iterations N HN). split; reflexivity.
Qed.




End NonPositiveResolution.

(** ** The application's own parameters *)

Section Examples.

(** Arbitration between 0x21 and 0x25: the addresses first differ at
    bit 2, where master A proposes 0 and master B proposes 1. *)
Example arbitration_21_25_loss_bit :
  map Read.drives (Read.bitFrames (I2C.generateArbitrationSequence 33 37) 2)
  = repeat (Some 0, Some 1) 3
  /\ map Read.stateTags (Read.bitFrames (I2C.generateArbitrationSequence 33 37) 2)
     = repeat (Some I2C.active, Some I2C.lost) 3.
Proof. split; reflexivity. Qed.

(** At bit 1 both addresses have a 0; master B, having lost, is recorded
    at 1. *)
Example arbitration_21_25_next_bit :
  JS.bit 37 1 = 0
  /\ map Read.drives (Read.bitFrames (I2C.generateArbitrationSequence 33 37) 1)
     = repeat (Some 0, Some 1) 3.
Proof. split; reflexivity. Qed.

Example arbitration_tie :
  map Read.stateTags (I2C.generateArbitrationSequence 33 33)
  = repeat (Some I2C.active, Some I2C.active) 33.
Proof. reflexivity. Qed.

Example arbitration_bus :
  map I2C.sda (I2C.generateArbitrationSequence 33 37)
  = [1; 0; 0;  0; 0; 0;  1; 1; 1;  0; 0; 0;  0; 0; 0;  0; 0; 0;  0; 0; 0;
     1; 1; 1;  0; 0; 0;  0; 0; 0;  0; 0; 1].
Proof. reflexivity. Qed.

Example uart_K :
  map UART.level (UART.generateUARTSequence [75])
  = [1; 0; 1; 1; 0; 1; 0; 0; 1; 0; 1; 1].
Proof. reflexivity. Qed.

Example uart_labels :
  map UART.label (UART.generateUARTSequence [75])
  = ["Idle"; "Start"; "D0"; "D1"; "D2"; "D3"; "D4"; "D5"; "D6"; "D7";
     "Stop"; "Idle"]%string.
Proof. reflexivity. Qed.

Example spi_mode0_clock :
  map SPI.sck (SPI.generateSPISequence 240 15 0)
  = [0; 0;  0; 1; 0; 1; 0; 1; 0; 1; 0; 1; 0; 1; 0; 1; 0; 1;  0; 0].
Proof. reflexivity. Qed.

Example spi_mode3_clock :
  map SPI.sck (SPI.generateSPISequence 240 15 3)
  = [1; 1;  0; 1; 0; 1; 0; 1; 0; 1; 0; 1; 0; 1; 0; 1; 0; 1;  1].
Proof. reflexivity. Qed.

Example sar_half_scale :
  map ADC64.decision (ADC64.sarSteps 4 ADC64.dacVRef (ADC64.slider 165)) = [1; 0; 0; 0]
  /\ map ADC64.bitIndex (ADC64.sarSteps 4 ADC64.dacVRef (ADC64.slider 165)) = [3; 2; 1; 0].
Proof. split; vm_compute; reflexivity. Qed.

Example dual_slope_half_scale :
  ADC64.dualSlopeCount 4 ADC64.dacVRef (ADC64.slider 165) = 8%float.
Proof. vm_compute. reflexivity. Qed.

(** Of the 331 slider voltages, 35 give a ratio [t2 / t1] that is not the
    double [v / vRef]; the first is 0.35. *)
Example dual_slope_inexact_ratios :
  let inexact i :=
    negb (ADC64.t2 ADC64.dacVRef (ADC64.slider i) / ADC64.t1
          =? ADC64.slider i / ADC64.dacVRef)%float in
  List.length (filter inexact (upto 331)) = 35%nat
  /\ hd_error (filter inexact (upto 331)) = Some 35.
Proof. split; vm_compute; reflexivity. Qed.

(** From 54 bits up [2^N - 1] is not a double: the maximum count rounds
    to [2^N], and so does the full-scale code. *)
Example dual_slope_54_bits :
  ADC64.dualSlopeCount 54 ADC64.dacVRef ADC64.dacVRef = Double.pow2 54.
Proof. vm_compute. reflexivity. Qed.

Example dac_code_8 :
  (DAC.outputVoltage (DAC.ladder 4 (33 # 10) 8) == 165 # 100)%Q
  /\ DAC.bits (DAC.ladder 4 (33 # 10) 8) = [1; 0; 0; 0].
Proof. split; reflexivity. Qed.

End Examples.
